(** * stratastor/logger: a shallow embedding of [logger.go]

    The package wraps [log/slog] and, optionally, the Sentry SDK.  The
    repository's own code is the factory ([New], [NewTag]), the adapter
    [sentryHandler], the fan-out [combinedHandler] and the level table
    [slogToSentryLevel]; these are embedded from the source.  What the
    package imports ([log/slog], [sentry-go], [os.Stdout]) is represented
    at its API boundary: the values that cross it, a log of the calls made
    to the SDK, the lines written to standard output, and result oracles
    for the calls whose outcome the package cannot determine. *)

From Stdlib Require Import ZArith QArith.
From stdpp Require Import base option list strings gmap.

Set Warnings "-register-all".

Open Scope string_scope.
Open Scope list_scope.
Open Scope Z_scope.

(** Go's [error] values are represented by their message. *)
Definition error := string.

(** ** The vocabulary of [log/slog] used by the package *)

Module slog.

(** [type Level int], with the four named levels. *)
Definition Level := Z.
Definition LevelDebug : Level := -4.
Definition LevelInfo : Level := 0.
Definition LevelWarn : Level := 4.
Definition LevelError : Level := 8.

(** [slog.Value]: the kinds the package can meet.  [AnyValue] stands for
    an opaque value of any other Go type. *)
Inductive Value :=
| StringValue (s : string)
| Int64Value (n : Z)
| BoolValue (b : bool)
| GroupValue (members : list (string * Value))
| AnyValue (x : N).

(** [slog.Attr] is a key and a value. *)
Definition Attr := (string * Value)%type.
Definition Key (a : Attr) : string := a.1.
Definition Val (a : Attr) : Value := a.2.

(** [slog.String(key, value)]. *)
Definition String (key value : string) : Attr := (key, StringValue value).

(** [slog.Record]; [RAttrs] is the sequence [Record.Attrs] iterates over. *)
Record Record_ := {
  RTime : Z;
  RMessage : string;
  RLevel : Level;
  RPC : Z;
  RAttrs : list Attr
}.

(** [slog.HandlerOptions], the two fields [New] sets. *)
Record HandlerOptions := {
  OLevel : Level;
  AddSource : bool
}.

(** Modelled from the spec: the JSON sink is the handler of the imported
    package [log/slog], whose source is not in the repository.  It keeps
    its options and what [WithAttrs] and [WithGroup] have added to it, in
    order. *)
Inductive scope :=
| attrs_scope (attrs : list Attr)
| group_scope (name : string).

Record JSONHandler := {
  opts : HandlerOptions;
  scopes : list scope
}.

(** [slog.NewJSONHandler(os.Stdout, opts)]. *)
Definition NewJSONHandler (o : HandlerOptions) : JSONHandler :=
  {| opts := o; scopes := [] |}.

(** Modelled from the spec: the JSON sink is enabled for the levels at or
    above its threshold. *)
Definition JSONHandler_Enabled (j : JSONHandler) (l : Level) : bool :=
  OLevel (opts j) <=? l.

(** Modelled from the spec: deriving the JSON sink with attributes or
    with a group leaves the original as it is and carries them forward;
    an empty attribute list or group name derives nothing. *)
Definition JSONHandler_WithAttrs (j : JSONHandler) (attrs : list Attr) : JSONHandler :=
  match attrs with
  | [] => j
  | _ => {| opts := opts j; scopes := scopes j ++ [attrs_scope attrs] |}
  end.

Definition JSONHandler_WithGroup (j : JSONHandler) (name : string) : JSONHandler :=
  if decide (name = "") then j
  else {| opts := opts j; scopes := scopes j ++ [group_scope name] |}.

(** Modelled from the spec: the output of the JSON sink is one object per
    record with severity, message, timestamp, source location and all
    attributes as top-level or nested members.  These are the members of
    the object after the built-in ones: attributes
    added before a group stay outside it, the record's own attributes go
    inside every open group, and a group left empty is not written. *)
Fixpoint members (sc : list scope) (rattrs : list Attr) : list Attr :=
  match sc with
  | [] => rattrs
  | attrs_scope attrs :: rest => attrs ++ members rest rattrs
  | group_scope name :: rest =>
      match members rest rattrs with
      | [] => []
      | inner => [(name, GroupValue inner)]
      end
  end.

(** One line of output: the built-in members and the others. *)
Record Line := {
  LTime : Z;
  LLevel : Level;
  LSource : option Z;
  LMsg : string;
  LAttrs : list Attr
}.

Definition JSONHandler_line (j : JSONHandler) (r : Record_) : Line :=
  {| LTime := RTime r;
     LLevel := RLevel r;
     LSource := if AddSource (opts j) then Some (RPC r) else None;
     LMsg := RMessage r;
     LAttrs := members (scopes j) (RAttrs r) |}.

End slog.

(** ** The vocabulary of [sentry-go] used by the package *)

Module sentry.

(** [type Level string] with its five constants. *)
Inductive Level :=
| LevelDebug
| LevelInfo
| LevelWarning
| LevelError
| LevelFatal.

Definition Level_string (l : Level) : string :=
  match l with
  | LevelDebug => "debug"
  | LevelInfo => "info"
  | LevelWarning => "warning"
  | LevelError => "error"
  | LevelFatal => "fatal"
  end.

(** [sentry.ClientOptions], the three fields [New] sets. *)
Record ClientOptions := {
  Dsn : string;
  EnableTracing : bool;
  TracesSampleRate : Q
}.

(** A scope carries the extras and the level set on it. *)
Record Scope := {
  extra : gmap string slog.Value;
  level : option Level
}.

(** What [CaptureMessage] hands to the client: the message with the
    current scope applied. *)
Record Event := {
  EMessage : string;
  ELevel : option Level;
  EExtra : gmap string slog.Value
}.

Definition EventID := string.

(** The calls the package makes to the SDK, with what they returned. *)
Inductive Call :=
| Init_call (o : ClientOptions) (err : option error)
| Flush_call (timeout : Z) (ok : bool)
| CaptureMessage_call (e : Event) (id : option EventID).

(** The current hub: its top scope and the calls made so far, oldest
    first. *)
Record Hub := {
  top : Scope;
  calls : list Call
}.

Definition SetExtra (k : string) (v : slog.Value) (s : Scope) : Scope :=
  {| extra := <[k := v]> (extra s); level := level s |}.

Definition SetLevel (l : Level) (s : Scope) : Scope :=
  {| extra := extra s; level := Some l |}.

Definition with_top (s : Scope) (h : Hub) : Hub :=
  {| top := s; calls := calls h |}.

(** [sentry.WithScope(f)]: [f] runs on a clone of the top scope, which is
    dropped when [f] returns. *)
Definition WithScope (f : Hub → Hub) (h : Hub) : Hub :=
  with_top (top h) (f h).

End sentry.

(** [time.Second], in nanoseconds. *)
Definition time_Second : Z := 1000000000.

(** ** What lies outside the package

    Handlers written elsewhere (any other [slog.Handler], such as the
    instrumented doubles of a test) act on a state of their own: they are
    taken not to call the SDK and not to write to standard output.  The
    results of the SDK's calls and of a write to standard output are not
    determined by the package; each is an oracle of the call's argument
    and of what happened before. *)
Class Externals := {
  ExtHandler : Type;
  ExtState : Type;
  ext_Handle : ExtHandler → slog.Record_ → ExtState → option error * ExtState;
  ext_Enabled : ExtHandler → slog.Level → bool;
  ext_WithAttrs : ExtHandler → list slog.Attr → ExtHandler;
  ext_WithGroup : ExtHandler → string → ExtHandler;
  Init_result : sentry.ClientOptions → list sentry.Call → option error;
  Flush_result : Z → list sentry.Call → bool;
  Capture_result : sentry.Event → list sentry.Call → option sentry.EventID;
  Write_result : slog.Line → list slog.Line → option error
}.

(** ** The package *)

(** [type Config struct]. *)
Record Config := {
  LogLevel : string;
  SentryDSN : string;
  EnableSentry : bool
}.

Section Logger.
Context `{X : Externals}.

(** Everything a call can change. *)
Record World := {
  hub : sentry.Hub;
  stdout : list slog.Line;
  ext : ExtState
}.

Definition set_hub (h : sentry.Hub) (w : World) : World :=
  {| hub := h; stdout := stdout w; ext := ext w |}.

Definition set_ext (e : ExtState) (w : World) : World :=
  {| hub := hub w; stdout := stdout w; ext := e |}.

Definition log_call (c : sentry.Call) (h : sentry.Hub) : sentry.Hub :=
  {| sentry.top := sentry.top h; sentry.calls := sentry.calls h ++ [c] |}.

(** [sentry.Init(options)]. *)
Definition sentry_Init (o : sentry.ClientOptions) (w : World) : option error * World :=
  let err := Init_result o (sentry.calls (hub w)) in
  (err, set_hub (log_call (sentry.Init_call o err) (hub w)) w).

(** [sentry.Flush(timeout)]. *)
Definition sentry_Flush (timeout : Z) (w : World) : bool * World :=
  let ok := Flush_result timeout (sentry.calls (hub w)) in
  (ok, set_hub (log_call (sentry.Flush_call timeout ok) (hub w)) w).

(** [sentry.CaptureMessage(message)], on the current hub. *)
Definition sentry_CaptureMessage (message : string) (h : sentry.Hub)
  : option sentry.EventID * sentry.Hub :=
  let e := {| sentry.EMessage := message;
              sentry.ELevel := sentry.level (sentry.top h);
              sentry.EExtra := sentry.extra (sentry.top h) |} in
  let id := Capture_result e (sentry.calls h) in
  (id, log_call (sentry.CaptureMessage_call e id) h).

(** [Handle] of [slog.JSONHandler]: one line to standard output, or the
    writer's error. *)
Definition JSONHandler_Handle (j : slog.JSONHandler) (r : slog.Record_) (w : World)
  : option error * World :=
  let line := slog.JSONHandler_line j r in
  match Write_result line (stdout w) with
  | Some e => (Some e, w)
  | None => (None, {| hub := hub w; stdout := stdout w ++ [line]; ext := ext w |})
  end.

(** The values of the interface [slog.Handler]: the JSON handler, the two
    handler types of the package with their fields ([next] is [None] for
    Go's [nil]), and handlers written elsewhere. *)
Inductive Handler :=
| JSONHandler (j : slog.JSONHandler)
| sentryHandler (next : option Handler) (minLogLevel : slog.Level)
| combinedHandler (jsonHandler : Handler) (sentryHandler_ : Handler)
| External (x : ExtHandler).

(** [func slogToSentryLevel(level slog.Level) sentry.Level]. *)
Definition slogToSentryLevel (level : slog.Level) : sentry.Level :=
  if level =? slog.LevelDebug then sentry.LevelDebug
  else if level =? slog.LevelInfo then sentry.LevelInfo
  else if level =? slog.LevelWarn then sentry.LevelWarning
  else if level =? slog.LevelError then sentry.LevelError
  else sentry.LevelInfo.

(** The map [attrs] that [sentryHandler.Handle] fills from the record:
    a later attribute replaces an earlier one with the same key. *)
Definition collect_attrs (r : slog.Record_) : gmap string slog.Value :=
  foldl (λ m a, <[slog.Key a := slog.Val a]> m) ∅ (slog.RAttrs r).

(** The function [sentryHandler.Handle] passes to [sentry.WithScope]. *)
Definition capture (r : slog.Record_) (attrs : gmap string slog.Value) (h : sentry.Hub)
  : sentry.Hub :=
  let scope1 := map_fold (λ k v s, sentry.SetExtra k v s) (sentry.top h) attrs in
  let scope2 := sentry.SetLevel (slogToSentryLevel (slog.RLevel r)) scope1 in
  (sentry_CaptureMessage (slog.RMessage r) (sentry.with_top scope2 h)).2.

(** [func (h *sentryHandler) Handle(ctx, record) error], over the [Handle]
    of the interface. *)
Definition sentryHandler_Handle
    (Handle : Handler → slog.Record_ → World → option error * World)
    (next : option Handler) (minLogLevel : slog.Level)
    (record : slog.Record_) (w : World) : option error * World :=
  let early :=
    if slog.RLevel record <? minLogLevel then
      match next with
      | Some n => Some (Handle n record w)
      | None => None
      end
    else None in
  match early with
  | Some ret => ret
  | None =>
      let attrs := collect_attrs record in
      let w1 := set_hub (sentry.WithScope (capture record attrs) (hub w)) w in
      match next with
      | Some n => Handle n record w1
      | None => (None, w1)
      end
  end.

(** [func (h *combinedHandler) Handle(ctx, record) error]. *)
Definition combinedHandler_Handle
    (Handle : Handler → slog.Record_ → World → option error * World)
    (jsonHandler sentryHandler_ : Handler)
    (record : slog.Record_) (w : World) : option error * World :=
  let '(err, w1) := Handle jsonHandler record w in
  match err with
  | Some e => (Some e, w1)
  | None => Handle sentryHandler_ record w1
  end.

(** [Handle] of the interface, by the dynamic type of the handler. *)
Fixpoint Handle (h : Handler) (record : slog.Record_) (w : World)
  : option error * World :=
  match h with
  | JSONHandler j => JSONHandler_Handle j record w
  | sentryHandler next minLogLevel =>
      sentryHandler_Handle Handle next minLogLevel record w
  | combinedHandler j s => combinedHandler_Handle Handle j s record w
  | External x =>
      let '(err, e) := ext_Handle x record (ext w) in (err, set_ext e w)
  end.

(** [func (h *sentryHandler) Enabled(ctx, level) bool]. *)
Definition sentryHandler_Enabled (minLogLevel : slog.Level) (level : slog.Level) : bool :=
  level >=? minLogLevel.

(** [func (h *combinedHandler) Enabled(ctx, level) bool]. *)
Definition combinedHandler_Enabled
    (Enabled : Handler → slog.Level → bool)
    (jsonHandler sentryHandler_ : Handler) (level : slog.Level) : bool :=
  Enabled jsonHandler level || Enabled sentryHandler_ level.

Fixpoint Enabled (h : Handler) (level : slog.Level) : bool :=
  match h with
  | JSONHandler j => slog.JSONHandler_Enabled j level
  | sentryHandler _ minLogLevel => sentryHandler_Enabled minLogLevel level
  | combinedHandler j s => combinedHandler_Enabled Enabled j s level
  | External x => ext_Enabled x level
  end.

(** [func (h *sentryHandler) WithAttrs(attrs) slog.Handler]: the struct
    literal names the two fields and nothing else. *)
Definition sentryHandler_WithAttrs
    (next : option Handler) (minLogLevel : slog.Level) (attrs : list slog.Attr) : Handler :=
  sentryHandler next minLogLevel.

(** [func (h *sentryHandler) WithGroup(name) slog.Handler]. *)
Definition sentryHandler_WithGroup
    (next : option Handler) (minLogLevel : slog.Level) (name : string) : Handler :=
  sentryHandler next minLogLevel.

(** [func (h *combinedHandler) WithAttrs(attrs) slog.Handler]. *)
Definition combinedHandler_WithAttrs
    (WithAttrs : Handler → list slog.Attr → Handler)
    (jsonHandler sentryHandler_ : Handler) (attrs : list slog.Attr) : Handler :=
  combinedHandler (WithAttrs jsonHandler attrs) (WithAttrs sentryHandler_ attrs).

(** [func (h *combinedHandler) WithGroup(name) slog.Handler]. *)
Definition combinedHandler_WithGroup
    (WithGroup : Handler → string → Handler)
    (jsonHandler sentryHandler_ : Handler) (name : string) : Handler :=
  combinedHandler (WithGroup jsonHandler name) (WithGroup sentryHandler_ name).

Fixpoint WithAttrs (h : Handler) (attrs : list slog.Attr) : Handler :=
  match h with
  | JSONHandler j => JSONHandler (slog.JSONHandler_WithAttrs j attrs)
  | sentryHandler next minLogLevel => sentryHandler_WithAttrs next minLogLevel attrs
  | combinedHandler j s => combinedHandler_WithAttrs WithAttrs j s attrs
  | External x => External (ext_WithAttrs x attrs)
  end.

Fixpoint WithGroup (h : Handler) (name : string) : Handler :=
  match h with
  | JSONHandler j => JSONHandler (slog.JSONHandler_WithGroup j name)
  | sentryHandler next minLogLevel => sentryHandler_WithGroup next minLogLevel name
  | combinedHandler j s => combinedHandler_WithGroup WithGroup j s name
  | External x => External (ext_WithGroup x name)
  end.

(** *** The adapters as allocated objects

    [WithAttrs] and [WithGroup] have a pointer receiver and return the
    address of a fresh struct.  A store lists the allocated adapters by
    address; an address outside it is a nil or dangling receiver, on
    which the method panics ([None]). *)
Definition Store := list Handler.

Definition alloc (o : Handler) (σ : Store) : nat * Store :=
  (length σ, σ ++ [o]).

Definition sentryHandler_WithAttrs_at (p : nat) (attrs : list slog.Attr) (σ : Store)
  : option (nat * Store) :=
  match σ !! p with
  | Some (sentryHandler next minLogLevel) =>
      Some (alloc (sentryHandler_WithAttrs next minLogLevel attrs) σ)
  | _ => None
  end.

Definition sentryHandler_WithGroup_at (p : nat) (name : string) (σ : Store)
  : option (nat * Store) :=
  match σ !! p with
  | Some (sentryHandler next minLogLevel) =>
      Some (alloc (sentryHandler_WithGroup next minLogLevel name) σ)
  | _ => None
  end.

(** *** [slog.Logger]

    Modelled from the spec: [type Logger = *slog.Logger], the logger of
    the imported package; a logger is its handler, its derivation methods
    derive the handler, and its emission methods hand a record to the
    handler when the handler is enabled for the level. *)
Record Logger := { handler : Handler }.

(** [slog.New(h)]. *)
Definition slog_New (h : Handler) : Logger := {| handler := h |}.

(** [Logger.With(args...)], the arguments already paired into attributes. *)
Definition Logger_With (l : Logger) (attrs : list slog.Attr) : Logger :=
  match attrs with
  | [] => l
  | _ => {| handler := WithAttrs (handler l) attrs |}
  end.

(** [Logger.WithGroup(name)]. *)
Definition Logger_WithGroup (l : Logger) (name : string) : Logger :=
  if decide (name = "") then l
  else {| handler := WithGroup (handler l) name |}.

(** [Logger.Log(ctx, level, msg, args...)]: a record is built and handled
    only if the handler is enabled for the level; the error [Handle]
    returns is dropped.  [time] and [pc] are the clock and the call site. *)
Definition Logger_Log (l : Logger) (time pc : Z) (level : slog.Level)
    (msg : string) (attrs : list slog.Attr) (w : World) : World :=
  if Enabled (handler l) level then
    (Handle (handler l)
       {| slog.RTime := time; slog.RMessage := msg; slog.RLevel := level;
          slog.RPC := pc; slog.RAttrs := attrs |} w).2
  else w.

(** *** The factory *)

(** What [New] and [NewTag] return: [(logger, nil)] or [(nil, err)]. *)
Inductive result :=
| Ok (logger : Logger)
| Err (err : error).

(** The [switch config.LogLevel] of [New]. *)
Definition New_level (LogLevel : string) : slog.Level :=
  if (LogLevel =? "debug")%string then slog.LevelDebug
  else if (LogLevel =? "info")%string then slog.LevelInfo
  else if (LogLevel =? "warn")%string then slog.LevelWarn
  else if (LogLevel =? "error")%string then slog.LevelError
  else slog.LevelInfo.

(** [func New(config Config) (Logger, error)].  The deferred
    [sentry.Flush] runs when the function returns after a successful
    [sentry.Init]. *)
Definition New (config : Config) (w : World) : result * World :=
  let level := New_level (LogLevel config) in
  let opts := {| slog.OLevel := level; slog.AddSource := true |} in
  let jsonHandler := JSONHandler (slog.NewJSONHandler opts) in
  let sentryHandler_ := sentryHandler None slog.LevelWarn in
  let combinedHandler_ := combinedHandler jsonHandler sentryHandler_ in
  if EnableSentry config && negb (SentryDSN config =? "")%string then
    let '(err, w1) :=
      sentry_Init {| sentry.Dsn := SentryDSN config;
                     sentry.EnableTracing := true;
                     sentry.TracesSampleRate := (5 # 100)%Q |} w in
    match err with
    | Some e => (Err ("sentry.Init failed: " +:+ e), w1)
    | None =>
        let logger := slog_New combinedHandler_ in
        (Ok logger, (sentry_Flush (2 * time_Second) w1).2)
    end
  else
    (Ok (slog_New jsonHandler), w).

(** [func NewTag(config Config, tag string) (Logger, error)]. *)
Definition NewTag (config : Config) (tag : string) (w : World) : result * World :=
  let '(res, w1) := New config w in
  match res with
  | Err err => (Err err, w1)
  | Ok logger => (Ok (Logger_With logger [slog.String "tag" tag]), w1)
  end.

End Logger.

(** ** Reading results *)

Section Observers.
Context `{X : Externals}.

(** The calls made to the SDK between two worlds. *)
Definition new_calls (w w' : World) : list sentry.Call :=
  drop (length (sentry.calls (hub w))) (sentry.calls (hub w')).

(** The lines written to standard output between two worlds. *)
Definition new_lines (w w' : World) : list slog.Line :=
  drop (length (stdout w)) (stdout w').



(** [New] is asked for the remote sink. *)
Definition remote_requested (c : Config) : Prop :=
  EnableSentry c = true ∧ SentryDSN c ≠ "".

(** A logger derived from another by a sequence of [With] and
    [WithGroup] calls. *)
Definition derive (l : Logger) (ds : list slog.scope) : Logger :=
  foldl (λ l d,
           match d with
           | slog.attrs_scope attrs => Logger_With l attrs
           | slog.group_scope name => Logger_WithGroup l name
           end) l ds.

(** What a derivation method of the adapter leaves behind: a fresh
    address [p'] holding [o], and every object of the old store where it
    was. *)
Definition fresh_copy (σ : Store) (p p' : nat) (σ' : Store) (o : Handler) : Prop :=
  σ !! p' = None ∧ p' ≠ p ∧ σ' !! p' = Some o ∧
  ∀ q old, σ !! q = Some old → σ' !! q = Some old.

(** Two outcomes of [Handle] that differ at most in the hub. *)
Definition same_outside_hub (a b : option error * World) : Prop :=
  a.1 = b.1 ∧ stdout a.2 = stdout b.2 ∧ ext a.2 = ext b.2.

(** The options [New] passes to [sentry.Init]. *)
Definition New_options (c : Config) : sentry.ClientOptions :=
  {| sentry.Dsn := SentryDSN c;
     sentry.EnableTracing := true;
     sentry.TracesSampleRate := (5 # 100)%Q |}.

(** The two sinks [New] builds. *)
Definition New_json (c : Config) : Handler :=
  JSONHandler (slog.NewJSONHandler
                 {| slog.OLevel := New_level (LogLevel c); slog.AddSource := true |}).

Definition New_fanout (c : Config) : Handler :=
  combinedHandler (New_json c) (sentryHandler None slog.LevelWarn).

(** The three ways through [New]. *)
Inductive New_path (c : Config) (w : World) : result * World → Prop :=
| New_json_only :
    ¬ remote_requested c →
    New_path c w (Ok (slog_New (New_json c)), w)
| New_init_failed e :
    remote_requested c →
    Init_result (New_options c) (sentry.calls (hub w)) = Some e →
    New_path c w (Err ("sentry.Init failed: " +:+ e), (sentry_Init (New_options c) w).2)
| New_remote :
    remote_requested c →
    Init_result (New_options c) (sentry.calls (hub w)) = None →
    New_path c w (Ok (slog_New (New_fanout c)),
                  (sentry_Flush (2 * time_Second) (sentry_Init (New_options c) w).2).2).

(** The event a record is submitted as. *)
Definition submitted (record : slog.Record_) (h : sentry.Hub) : sentry.Event :=
  {| sentry.EMessage := slog.RMessage record;
     sentry.ELevel := Some (slogToSentryLevel (slog.RLevel record));
     sentry.EExtra := collect_attrs record ∪ sentry.extra (sentry.top h) |}.

(** The world after the adapter has submitted a record. *)
Definition after_submission (record : slog.Record_) (w : World) : World :=
  set_hub (sentry.WithScope (capture record (collect_attrs record)) (hub w)) w.

(** A handler carries an attribute when its JSON sink was given the
    attribute before anything else and its other branch writes no
    line. *)
Inductive carries (a : slog.Attr) : Handler → Prop :=
| carries_json j rest :
    slog.scopes j = slog.attrs_scope [a] :: rest →
    carries a (JSONHandler j)
| carries_fanout j m :
    carries a j →
    carries a (combinedHandler j (sentryHandler None m)).

(** The lines a successful or failed write leaves. *)
Definition written (line : slog.Line) (w : World) : list slog.Line :=
  match Write_result line (stdout w) with
  | None => [line]
  | Some _ => []
  end.

(** The record [Logger.Log] builds. *)
Definition logged (time pc : Z) (level : slog.Level) (msg : string)
    (attrs : list slog.Attr) : slog.Record_ :=
  {| slog.RTime := time; slog.RMessage := msg; slog.RLevel := level;
     slog.RPC := pc; slog.RAttrs := attrs |}.

(** The call the adapter makes for a record on a hub. *)
Definition capture_call (record : slog.Record_) (h : sentry.Hub) : sentry.Call :=
  sentry.CaptureMessage_call (submitted record h)
    (Capture_result (submitted record h) (sentry.calls h)).

(** A call is a submission of this record under this top scope. *)
Definition submits (record : slog.Record_) (h : sentry.Hub) (c : sentry.Call) : Prop :=
  ∃ id, c = sentry.CaptureMessage_call (submitted record h) id.

(** A handler made of JSON handlers and the two handler types of the
    package only. *)
Fixpoint internal (h : Handler) : bool :=
  match h with
  | JSONHandler _ => true
  | sentryHandler next _ =>
      match next with
      | Some n => internal n
      | None => true
      end
  | combinedHandler j s => internal j && internal s
  | External _ => false
  end.

(** The two shapes of handler behind the loggers of [New] and the
    loggers derived from them. *)
Definition json_shaped (h : Handler) : Prop :=
  ∃ j, h = JSONHandler j.

Definition fanout_shaped (h : Handler) : Prop :=
  ∃ j m, h = combinedHandler (JSONHandler j) (sentryHandler None m).

(** Induction over handlers that reaches through the [next] field. *)
Section Induction.
Variable P : Handler → Prop.
Hypothesis HJ : ∀ j, P (JSONHandler j).
Hypothesis HN : ∀ m, P (sentryHandler None m).
Hypothesis HS : ∀ n m, P n → P (sentryHandler (Some n) m).
Hypothesis HC : ∀ j s, P j → P s → P (combinedHandler j s).
Hypothesis HE : ∀ x, P (External x).

Fixpoint Handler_chain_ind (h : Handler) : P h :=
  match h with
  | JSONHandler j => HJ j
  | sentryHandler None m => HN m
  | sentryHandler (Some n) m => HS n m (Handler_chain_ind n)
  | combinedHandler j s => HC j s (Handler_chain_ind j) (Handler_chain_ind s)
  | External x => HE x
  end.
End Induction.

End Observers.

(** ** Instrumented doubles

    A handler double returns the error it was built with and journals
    every record it is given.  The SDK double rejects the DSN
    ["malformed"], accepts every other, and reports each captured event
    as delivered; writes to standard output succeed. *)
Definition doubles : Externals := {|
  ExtHandler := option error;
  ExtState := list slog.Record_;
  ext_Handle := λ x r journal, (x, journal ++ [r]);
  ext_Enabled := λ _ _, true;
  ext_WithAttrs := λ x _, x;
  ext_WithGroup := λ x _, x;
  Init_result := λ o _,
    if (sentry.Dsn o =? "malformed")%string then Some "invalid DSN" else None;
  Flush_result := λ _ _, true;
  Capture_result := λ _ _, Some "event-id";
  Write_result := λ _ _, None
|}.

(** A process that has made no call, written no line and handled no
    record. *)
Definition fresh_world : @World doubles :=
  @Build_World doubles
    {| sentry.top := {| sentry.extra := ∅; sentry.level := None |};
       sentry.calls := [] |}
    []
    [].

(** A record with no attributes. *)
Definition plain_record (level : slog.Level) (msg : string) : slog.Record_ :=
  {| slog.RTime := 0; slog.RMessage := msg; slog.RLevel := level;
     slog.RPC := 0; slog.RAttrs := [] |}.

(** The configuration of the README's example with Sentry enabled, at
    level "debug". *)
Definition debug_remote : Config :=
  {| LogLevel := "debug";
     SentryDSN := "https://key@sentry.example/1";
     EnableSentry := true |}.

(** A handler double that fails every record with "disk full". *)
Definition failing_double : @Handler doubles := @External doubles (Some "disk full").

(** A configuration whose level string is not one of the four. *)
Definition verbose_local : Config :=
  {| LogLevel := "verbose"; SentryDSN := ""; EnableSentry := false |}.

(** The README's configuration with Sentry enabled, at level "error". *)
Definition error_remote : Config :=
  {| LogLevel := "error";
     SentryDSN := "https://key@sentry.example/1";
     EnableSentry := true |}.

(** A JSON handler at threshold info, as [New] builds it. *)
Definition info_json : @Handler doubles :=
  JSONHandler (slog.NewJSONHandler {| slog.OLevel := slog.LevelInfo; slog.AddSource := true |}).

(** An error record with the key "k" twice. *)
Definition twice_k : slog.Record_ :=
  {| slog.RTime := 0; slog.RMessage := "failed"; slog.RLevel := slog.LevelError;
     slog.RPC := 0;
     slog.RAttrs := [("k", slog.Int64Value 1); ("k", slog.Int64Value 2)] |}.

(** The logger [NewTag] returns for the README's remote configuration. *)
Definition tagged_remote : @Logger doubles :=
  Logger_With (slog_New (New_fanout error_remote)) [slog.String "tag" "X"].

(** ** Properties *)

Section Properties.
Context `{X : Externals}.

(** *** The level table *)

(** C4. [slogToSentryLevel] is a function of its argument alone and is
    defined on every level: debug maps to debug, info to info, warn to
    warning, error to error, and any level other than these four maps to
    info. *)
Theorem slogToSentryLevel_table (level : slog.Level)
    (Hother : level ∉ [slog.LevelDebug; slog.LevelInfo; slog.LevelWarn; slog.LevelError]) :
  slogToSentryLevel slog.LevelDebug = sentry.LevelDebug ∧
  slogToSentryLevel slog.LevelInfo = sentry.LevelInfo ∧
  slogToSentryLevel slog.LevelWarn = sentry.LevelWarning ∧
  slogToSentryLevel slog.LevelError = sentry.LevelError ∧
  slogToSentryLevel level = sentry.LevelInfo.
Proof.
  repeat split; try reflexivity.
  unfold slogToSentryLevel.
  repeat case_match; try reflexivity;
    exfalso; apply Hother;
    match goal with H : (_ =? _) = true |- _ => apply Z.eqb_eq in H; subst level end;
    set_solver.
Qed.

(** *** The fan-out *)

(** C2. [combinedHandler.Handle] calls the JSON branch first, on the world
    it was given.  If that call returns an error, the fan-out returns this
    error and the world the JSON branch left, so the remote branch has not
    run; otherwise it returns what the remote branch returns when run on
    the world the JSON branch left. *)
Theorem combinedHandler_Handle_json_first
    (jsonHandler sentryHandler_ : Handler) (record : slog.Record_) (w : World) :
  Handle (combinedHandler jsonHandler sentryHandler_) record w =
  match (Handle jsonHandler record w).1 with
  | Some e => (Some e, (Handle jsonHandler record w).2)
  | None => Handle sentryHandler_ record (Handle jsonHandler record w).2
  end.
Proof.
  cbn [Handle]. unfold combinedHandler_Handle.
  destruct (Handle jsonHandler record w) as [[e|] w1]; reflexivity.
Qed.

(** When the JSON branch fails, which handler sits in the remote branch
    makes no difference to the outcome. *)
Lemma combinedHandler_Handle_fail_fast
    (jsonHandler s1 s2 : Handler) (record : slog.Record_) (w : World) (e : error) :
  (Handle jsonHandler record w).1 = Some e →
  Handle (combinedHandler jsonHandler s1) record w =
  Handle (combinedHandler jsonHandler s2) record w.
Proof.
  intros He. cbn [Handle]. unfold combinedHandler_Handle.
  destruct (Handle jsonHandler record w) as [[e'|] w1]; [reflexivity | discriminate].
Qed.

(** C6. [combinedHandler.Enabled] answers true for a level exactly when
    the JSON branch or the remote branch answers true for it. *)
Theorem combinedHandler_Enabled_or
    (jsonHandler sentryHandler_ : Handler) (level : slog.Level) :
  Enabled (combinedHandler jsonHandler sentryHandler_) level = true ↔
  Enabled jsonHandler level = true ∨ Enabled sentryHandler_ level = true.
Proof.
  cbn [Enabled]. unfold combinedHandler_Enabled. apply orb_true_iff.
Qed.

(** *** The factory *)

Lemma remote_requested_bool (c : Config) :
  EnableSentry c && negb (SentryDSN c =? "")%string = true ↔ remote_requested c.
Proof.
  unfold remote_requested. rewrite andb_true_iff, negb_true_iff.
  split; intros [He Hd]; (split; [exact He |]).
  - intros Heq. apply String.eqb_eq in Heq. congruence.
  - apply String.eqb_neq. exact Hd.
Qed.

Lemma remote_requested_dec (c : Config) :
  remote_requested c ∨ ¬ remote_requested c.
Proof.
  rewrite <- remote_requested_bool.
  destruct (EnableSentry c && negb (SentryDSN c =? "")%string); [left | right]; congruence.
Qed.

Lemma New_paths (c : Config) (w : World) : New_path c w (New c w).
Proof.
  unfold New. fold (New_options c).
  destruct (EnableSentry c && negb (SentryDSN c =? "")%string) eqn:Hb.
  - apply remote_requested_bool in Hb.
    unfold sentry_Init at 1.
    destruct (Init_result (New_options c) (sentry.calls (hub w))) as [e|] eqn:Hi.
    + replace (set_hub _ w) with (sentry_Init (New_options c) w).2
        by (unfold sentry_Init; rewrite Hi; reflexivity).
      by apply New_init_failed.
    + replace (set_hub _ w) with (sentry_Init (New_options c) w).2
        by (unfold sentry_Init; rewrite Hi; reflexivity).
      by apply New_remote.
  - apply New_json_only. rewrite <- remote_requested_bool. congruence.
Qed.

Lemma new_calls_Init (o : sentry.ClientOptions) (w : World) :
  new_calls w (sentry_Init o w).2 =
  [sentry.Init_call o (Init_result o (sentry.calls (hub w)))].
Proof. unfold new_calls. cbn. apply drop_app_length. Qed.

Lemma new_calls_Init_Flush (o : sentry.ClientOptions) (t : Z) (w : World) :
  ∃ ok, new_calls w (sentry_Flush t (sentry_Init o w).2).2 =
        [sentry.Init_call o (Init_result o (sentry.calls (hub w)));
         sentry.Flush_call t ok].
Proof.
  eexists. unfold new_calls. cbn. rewrite <- app_assoc. apply drop_app_length.
Qed.

Lemma new_calls_refl (w : World) : new_calls w w = [].
Proof. unfold new_calls. apply drop_all. Qed.

(** The backing of a returned logger, and failure read off the calls
    made. *)
Lemma New_backing_by_calls (c : Config) (w : World) :
  (∀ l, (New c w).1 = Ok l →
        (handler l = New_fanout c ↔ remote_requested c) ∧
        (handler l = New_json c ↔ ¬ remote_requested c)) ∧
  ((∃ e, (New c w).1 = Err e) ↔
   (∃ o e, sentry.Init_call o (Some e) ∈ new_calls w (New c w).2)) ∧
  (¬ remote_requested c → (New c w).2 = w).
Proof.
  destruct (New_paths c w) as [Hno | e Hyes Hi | Hyes Hi]; cbn [fst snd].
  - split; [| split].
    + intros l [= <-]. cbn [handler slog_New]. split; split.
      * intros Hh. discriminate Hh.
      * intros Hr. contradiction.
      * intros _. exact Hno.
      * intros _. reflexivity.
    + split.
      * intros [e He]. discriminate He.
      * intros (o & e & Hin). rewrite new_calls_refl in Hin.
        by apply elem_of_nil in Hin.
    + intros _. reflexivity.
  - split; [| split].
    + intros l Hl. discriminate Hl.
    + split; [| by eauto].
      intros _. exists (New_options c), e.
      rewrite new_calls_Init, Hi. apply list_elem_of_singleton. reflexivity.
    + intros Hno. contradiction.
  - split; [| split].
    + intros l [= <-]. cbn [handler slog_New]. split; split.
      * intros _. exact Hyes.
      * intros _. reflexivity.
      * intros Hh. discriminate Hh.
      * intros Hno. contradiction.
    + split.
      * intros [e He]. discriminate He.
      * intros (o & e & Hin).
        destruct (new_calls_Init_Flush (New_options c) (2 * time_Second) w) as [ok Hc].
        rewrite Hc, Hi in Hin.
        apply elem_of_cons in Hin as [Hin | Hin]; [discriminate Hin |].
        apply list_elem_of_singleton in Hin. discriminate Hin.
    + intros Hno. contradiction.
Qed.

(** C3. A logger returned by [New] is backed by the fan-out of the JSON
    sink and the adapter exactly when the flag is set and the DSN is not
    empty, and by the JSON sink alone exactly when not.  When the flag is
    set and the DSN is not empty, [New] calls [sentry.Init] first, with
    the configured DSN, tracing enabled and a sample rate of 0.05; [New]
    returns an error exactly when that is so and this call fails, and the
    error is then the SDK's message after "sentry.Init failed: "; when
    the call succeeds [New] returns the fan-out logger.  When the remote
    sink is not asked for, [New] calls nothing, changes nothing and
    returns the JSON logger. *)
Theorem New_backing_and_failure (c : Config) (w : World) :
  let o := {| sentry.Dsn := SentryDSN c;
              sentry.EnableTracing := true;
              sentry.TracesSampleRate := (5 # 100)%Q |} in
  let init := Init_result o (sentry.calls (hub w)) in
  (∀ l, (New c w).1 = Ok l →
        (handler l = New_fanout c ↔ remote_requested c) ∧
        (handler l = New_json c ↔ ¬ remote_requested c)) ∧
  ((∃ e, (New c w).1 = Err e) ↔
   (∃ o e, sentry.Init_call o (Some e) ∈ new_calls w (New c w).2)) ∧
  (¬ remote_requested c → (New c w).2 = w) ∧
  (remote_requested c →
   ∃ rest, new_calls w (New c w).2 = sentry.Init_call o init :: rest) ∧
  ((∃ e, (New c w).1 = Err e) ↔ remote_requested c ∧ ∃ e, init = Some e) ∧
  (∀ e, (New c w).1 = Err e →
        ∃ e', init = Some e' ∧ e = "sentry.Init failed: " +:+ e') ∧
  (remote_requested c → init = None → (New c w).1 = Ok (slog_New (New_fanout c))) ∧
  (¬ remote_requested c → (New c w).1 = Ok (slog_New (New_json c))).
Proof.
  intros o init. subst o init. fold (New_options c).
  destruct (New_backing_by_calls c w) as (Hback & Hcalls & Hframe).
  split; [exact Hback |]. split; [exact Hcalls |]. split; [exact Hframe |].
  destruct (New_paths c w) as [Hno | e Hyes Hi | Hyes Hi]; cbn [fst snd].
  - split; [intros Hr; contradiction |].
    split; [split; [intros [e He]; discriminate He | intros [Hr _]; contradiction] |].
    split; [intros e He; discriminate He |].
    split; [intros Hr; contradiction | intros _; reflexivity].
  - split.
    { intros _. exists []. rewrite new_calls_Init, Hi. reflexivity. }
    split.
    { split; [intros _; split; [exact Hyes | by exists e] | intros _; by eexists]. }
    split.
    { intros e0 [= <-]. exists e. split; [exact Hi | reflexivity]. }
    split; [intros _ Hnone; rewrite Hi in Hnone; discriminate Hnone |].
    intros Hno. contradiction.
  - split.
    { intros _.
      destruct (new_calls_Init_Flush (New_options c) (2 * time_Second) w) as [ok Hc].
      eexists. rewrite Hc, Hi. reflexivity. }
    split.
    { split; [intros [e He]; discriminate He |].
      intros [_ [e He]]. rewrite Hi in He. discriminate He. }
    split; [intros e He; discriminate He |].
    split; [intros _ _; reflexivity | intros Hno; contradiction].
Qed.

(** A logger backed by the JSON sink alone never calls the SDK. *)
Lemma New_json_only_never_submits (c : Config) (w : World) (l : Logger) :
  ¬ remote_requested c → (New c w).1 = Ok l →
  ∀ record w1, hub (Handle (handler l) record w1).2 = hub w1.
Proof.
  intros Hno Hl record w1.
  destruct (New_paths c w) as [_ | e Hyes _ | Hyes _]; try contradiction.
  injection Hl as <-. cbn. unfold JSONHandler_Handle.
  destruct (Write_result _ _); reflexivity.
Qed.



(** C10. When the flag is set and the DSN is not empty, the handler of
    the logger [New] returns is enabled for warn and for error, and for
    every level from warn up, whatever the level string is. *)
Theorem New_remote_enabled_from_warn (c : Config) (w w' : World) (l : Logger)
    (Hflag : EnableSentry c = true) (Hdsn : SentryDSN c ≠ "")
    (Hnew : New c w = (Ok l, w')) :
  Enabled (handler l) slog.LevelWarn = true ∧
  Enabled (handler l) slog.LevelError = true ∧
  ∀ level, slog.LevelWarn ≤ level → Enabled (handler l) level = true.
Proof.
  assert (Hall : ∀ level, slog.LevelWarn ≤ level → Enabled (handler l) level = true).
  { intros level Hle.
    destruct (New_paths c w) as [Hno | e Hyes Hi | Hyes Hi].
    - exfalso. apply Hno. by split.
    - discriminate Hnew.
    - injection Hnew as <- _. cbn. unfold combinedHandler_Enabled.
      apply orb_true_iff. right. cbn. unfold sentryHandler_Enabled.
      apply Z.geb_le. exact Hle. }
  split; [| split]; [apply Hall | apply Hall | exact Hall];
    unfold slog.LevelWarn, slog.LevelError; lia.
Qed.

(** *** The adapter *)

(** The scope [Handle] captures with carries the record's attributes
    over whatever extras the enclosing scope had, whatever order the
    range over the map takes. *)
Lemma capture_scope_extra (s : sentry.Scope) (attrs : gmap string slog.Value) :
  sentry.extra (map_fold (λ k v s, sentry.SetExtra k v s) s attrs) = attrs ∪ sentry.extra s ∧
  sentry.level (map_fold (λ k v s, sentry.SetExtra k v s) s attrs) = sentry.level s.
Proof.
  apply (map_fold_weak_ind
           (λ sc m, sentry.extra sc = m ∪ sentry.extra s ∧ sentry.level sc = sentry.level s)).
  - split; [| reflexivity]. by rewrite (left_id_L ∅ (∪)).
  - intros k v m sc _ [He Hl]. cbn. split; [| exact Hl].
    by rewrite He, insert_union_l.
Qed.

(** One submission: a single [CaptureMessage] is added to the calls, and
    the top scope is what it was. *)
Lemma WithScope_capture (record : slog.Record_) (h : sentry.Hub) :
  sentry.WithScope (capture record (collect_attrs record)) h =
  log_call (sentry.CaptureMessage_call (submitted record h)
              (Capture_result (submitted record h) (sentry.calls h))) h.
Proof.
  unfold sentry.WithScope, capture, sentry_CaptureMessage, submitted, log_call,
    sentry.with_top.
  cbn. destruct (capture_scope_extra (sentry.top h) (collect_attrs record)) as [-> _].
  reflexivity.
Qed.

Lemma new_calls_after_submission (record : slog.Record_) (w : World) :
  new_calls w (after_submission record w) =
  [sentry.CaptureMessage_call (submitted record (hub w))
     (Capture_result (submitted record (hub w)) (sentry.calls (hub w)))].
Proof.
  unfold new_calls, after_submission. rewrite WithScope_capture. cbn.
  apply drop_app_length.
Qed.

(** Below the threshold with a chained handler: the record goes to the
    chain and nothing else happens. *)
Lemma sentryHandler_Handle_below_chained
    (n : Handler) (minLogLevel : slog.Level) (record : slog.Record_) (w : World) :
  slog.RLevel record < minLogLevel →
  Handle (sentryHandler (Some n) minLogLevel) record w = Handle n record w.
Proof.
  intros Hlt. cbn [Handle]. unfold sentryHandler_Handle.
  apply Z.ltb_lt in Hlt. rewrite Hlt. reflexivity.
Qed.

(** Below the threshold without a chained handler: the early return is
    not taken and the record is submitted like any other. *)
Lemma sentryHandler_Handle_below_unchained
    (minLogLevel : slog.Level) (record : slog.Record_) (w : World) :
  slog.RLevel record < minLogLevel →
  Handle (sentryHandler None minLogLevel) record w = (None, after_submission record w).
Proof.
  intros Hlt. cbn [Handle]. unfold sentryHandler_Handle.
  apply Z.ltb_lt in Hlt. rewrite Hlt. reflexivity.
Qed.

Lemma sentryHandler_Handle_from_threshold
    (next : option Handler) (minLogLevel : slog.Level) (record : slog.Record_) (w : World) :
  minLogLevel ≤ slog.RLevel record →
  Handle (sentryHandler next minLogLevel) record w =
  match next with
  | Some n => Handle n record (after_submission record w)
  | None => (None, after_submission record w)
  end.
Proof.
  intros Hle. cbn [Handle]. unfold sentryHandler_Handle.
  apply Z.ltb_ge in Hle. rewrite Hle. reflexivity.
Qed.

(** What [Handle] returns, writes and does to the handlers written
    elsewhere does not depend on the hub it runs on. *)
Lemma Handle_outside_hub (h : Handler) (record : slog.Record_) :
  ∀ w1 w2 : World,
    stdout w1 = stdout w2 → ext w1 = ext w2 →
    same_outside_hub (Handle h record w1) (Handle h record w2).
Proof.
  induction h as [j | m | n m IH | j s IHj IHs | x] using Handler_chain_ind;
    intros w1 w2 Hout Hext.
  - cbn [Handle]. unfold JSONHandler_Handle. rewrite Hout.
    destruct (Write_result _ _); repeat split; cbn; congruence.
  - cbn [Handle]. unfold sentryHandler_Handle.
    destruct (slog.RLevel record <? m); repeat split; cbn; congruence.
  - cbn [Handle]. unfold sentryHandler_Handle.
    destruct (slog.RLevel record <? m); apply IH; cbn; congruence.
  - cbn [Handle]. unfold combinedHandler_Handle.
    destruct (IHj w1 w2 Hout Hext) as (He & Ho & Hx).
    destruct (Handle j record w1) as [e1 w1'], (Handle j record w2) as [e2 w2'].
    cbn in He, Ho, Hx. subst e2.
    destruct e1; [by repeat split | by apply IHs].
  - cbn [Handle]. rewrite Hext.
    destruct (ext_Handle x record (ext w2)); repeat split; cbn; congruence.
Qed.

(** C8. For a record at or above the threshold, the adapter submits the
    record and then returns what the chained handler returns for it, or
    no error when there is no chained handler.  The error is the one the
    chained handler would return had nothing been submitted: the
    submission and its outcome have no part in it. *)
Theorem sentryHandler_Handle_only_chain_error
    (next : option Handler) (minLogLevel : slog.Level) (record : slog.Record_) (w : World)
    (Hlevel : minLogLevel ≤ slog.RLevel record) :
  Handle (sentryHandler next minLogLevel) record w =
    match next with
    | Some n => Handle n record (after_submission record w)
    | None => (None, after_submission record w)
    end ∧
  (Handle (sentryHandler next minLogLevel) record w).1 =
    match next with
    | Some n => (Handle n record w).1
    | None => None
    end.
Proof.
  rewrite (sentryHandler_Handle_from_threshold _ _ _ _ Hlevel).
  split; [reflexivity |].
  destruct next as [n|]; [| reflexivity].
  by apply Handle_outside_hub.
Qed.

(** An adapter without a chained handler submits every record it is
    given, whatever its level. *)
Lemma sentryHandler_Handle_unchained
    (minLogLevel : slog.Level) (record : slog.Record_) (w : World) :
  Handle (sentryHandler None minLogLevel) record w = (None, after_submission record w).
Proof.
  cbn [Handle]. unfold sentryHandler_Handle.
  destruct (slog.RLevel record <? minLogLevel); reflexivity.
Qed.

Lemma alloc_fresh_copy (σ : Store) (p : nat) (old o : Handler) :
  σ !! p = Some old → fresh_copy σ p (alloc o σ).1 (alloc o σ).2 o.
Proof.
  intros Hp. unfold fresh_copy, alloc. cbn [fst snd].
  pose proof (lookup_lt_Some _ _ _ Hp) as Hlt.
  split; [| split; [| split]].
  - by apply lookup_ge_None_2.
  - intros Heq. lia.
  - by apply list_lookup_middle.
  - intros q o' Hq. by apply lookup_app_l_Some.
Qed.

(** C7. [WithAttrs] and [WithGroup] on an allocated adapter return a
    fresh address; the adapter there has the threshold and the chain of
    the receiver and nothing else, so it is the same for any attributes
    and any group name and handles every record as the receiver does; and
    every adapter allocated before, the receiver included, is where and
    what it was. *)
Theorem sentryHandler_derivations
    (σ : Store) (p : nat) (next : option Handler) (minLogLevel : slog.Level)
    (attrs : list slog.Attr) (name : string)
    (Hp : σ !! p = Some (sentryHandler next minLogLevel)) :
  (∃ p' σ', sentryHandler_WithAttrs_at p attrs σ = Some (p', σ') ∧
            fresh_copy σ p p' σ' (sentryHandler next minLogLevel)) ∧
  (∃ p' σ', sentryHandler_WithGroup_at p name σ = Some (p', σ') ∧
            fresh_copy σ p p' σ' (sentryHandler next minLogLevel)) ∧
  (∀ attrs', sentryHandler_WithAttrs_at p attrs' σ = sentryHandler_WithAttrs_at p attrs σ) ∧
  (∀ name', sentryHandler_WithGroup_at p name' σ = sentryHandler_WithGroup_at p name σ) ∧
  (∀ record w,
     Handle (WithAttrs (sentryHandler next minLogLevel) attrs) record w =
     Handle (sentryHandler next minLogLevel) record w ∧
     Handle (WithGroup (sentryHandler next minLogLevel) name) record w =
     Handle (sentryHandler next minLogLevel) record w).
Proof.
  unfold sentryHandler_WithAttrs_at, sentryHandler_WithGroup_at.
  rewrite Hp. unfold sentryHandler_WithAttrs, sentryHandler_WithGroup.
  repeat split.
  - eexists _, _. split; [reflexivity |]. by eapply (alloc_fresh_copy σ p).
  - eexists _, _. split; [reflexivity |]. by eapply (alloc_fresh_copy σ p).
Qed.

(** *** The tag *)

Lemma carries_WithAttrs (a : slog.Attr) (h : Handler) (attrs : list slog.Attr) :
  carries a h → carries a (WithAttrs h attrs).
Proof.
  induction 1 as [j rest Hj | j m Hc IH]; cbn.
  - unfold slog.JSONHandler_WithAttrs. destruct attrs; [by econstructor |].
    econstructor. cbn. rewrite Hj. reflexivity.
  - unfold combinedHandler_WithAttrs. cbn. by constructor.
Qed.

Lemma carries_WithGroup (a : slog.Attr) (h : Handler) (name : string) :
  carries a h → carries a (WithGroup h name).
Proof.
  induction 1 as [j rest Hj | j m Hc IH]; cbn.
  - unfold slog.JSONHandler_WithGroup. case_decide; [by econstructor |].
    econstructor. cbn. rewrite Hj. reflexivity.
  - unfold combinedHandler_WithGroup. cbn. by constructor.
Qed.

Lemma carries_derive (a : slog.Attr) (ds : list slog.scope) :
  ∀ l, carries a (handler l) → carries a (handler (derive l ds)).
Proof.
  induction ds as [| d ds IH]; intros l Hl; [exact Hl |].
  apply IH. destruct d as [attrs | name]; cbn.
  - unfold Logger_With. destruct attrs; [exact Hl |]. by apply carries_WithAttrs.
  - unfold Logger_WithGroup. case_decide; [exact Hl |]. by apply carries_WithGroup.
Qed.

Lemma carries_Handle (a : slog.Attr) (h : Handler) (record : slog.Record_) :
  carries a h →
  ∀ w, ∃ line,
    a ∈ slog.LAttrs line ∧ slog.LMsg line = slog.RMessage record ∧
    new_lines w (Handle h record w).2 = written line w.
Proof.
  induction 1 as [j rest Hj | j m Hc IH]; intros w.
  - exists (slog.JSONHandler_line j record). split; [| split].
    + cbn. rewrite Hj. cbn. apply elem_of_cons. by left.
    + reflexivity.
    + cbn [Handle]. unfold JSONHandler_Handle, written, new_lines.
      destruct (Write_result _ _); cbn; [apply drop_all | apply drop_app_length].
  - destruct (IH w) as (line & Ha & Hm & Hn). exists line.
    split; [exact Ha |]. split; [exact Hm |].
    cbn [Handle]. unfold combinedHandler_Handle.
    destruct (Handle j record w) as [[e|] w1]; cbn [fst snd] in *; [exact Hn |].
    rewrite sentryHandler_Handle_unchained. exact Hn.
Qed.

Lemma carries_New_tagged (c : Config) (w : World) (l : Logger) (a : slog.Attr) :
  (New c w).1 = Ok l → carries a (WithAttrs (handler l) [a]).
Proof.
  destruct (New_paths c w); cbn [fst]; intros [= <-]; cbn.
  - by econstructor.
  - unfold combinedHandler_WithAttrs. cbn. constructor. by econstructor.
Qed.

(** C9. [NewTag] leaves the world as [New] does and fails exactly when
    [New] fails, with the same error.  Otherwise it returns the logger of
    [New] with the one attribute "tag" added to its handler, and every
    record logged through that logger, or through a logger derived from
    it, is written as a line that has the tag among its members, whenever
    the handler is enabled for the record and the write succeeds; nothing
    else is written. *)
Theorem NewTag_tagged (c : Config) (tag : string) (w : World) :
  (NewTag c tag w).2 = (New c w).2 ∧
  match (New c w).1 with
  | Err e => (NewTag c tag w).1 = Err e
  | Ok l =>
      let tagged := {| handler := WithAttrs (handler l) [slog.String "tag" tag] |} in
      (NewTag c tag w).1 = Ok tagged ∧
      ∀ ds time pc level msg attrs w1,
        let l' := derive tagged ds in
        ∃ line,
          ("tag", slog.StringValue tag) ∈ slog.LAttrs line ∧
          slog.LMsg line = msg ∧
          new_lines w1 (Logger_Log l' time pc level msg attrs w1) =
          if Enabled (handler l') level then written line w1 else []
  end.
Proof.
  unfold NewTag.
  destruct (New c w) as [[l | e] w'] eqn:Hnew; cbn [fst snd]; split; try reflexivity.
  split; [reflexivity |].
  intros ds time pc level msg attrs w1. cbn zeta.
  assert (Hc : carries (slog.String "tag" tag)
                 (handler (derive {| handler := WithAttrs (handler l) [slog.String "tag" tag] |} ds))).
  { apply carries_derive. cbn [handler]. apply (carries_New_tagged c w).
    by rewrite Hnew. }
  unfold Logger_Log.
  destruct (Enabled _ level).
  - destruct (carries_Handle _ _
                {| slog.RTime := time; slog.RMessage := msg; slog.RLevel := level;
                   slog.RPC := pc; slog.RAttrs := attrs |} Hc w1)
      as (line & Ha & Hm & Hn).
    exists line. split; [exact Ha |]. split; [exact Hm | exact Hn].
  - exists {| slog.LTime := time; slog.LLevel := level; slog.LSource := None;
              slog.LMsg := msg; slog.LAttrs := [slog.String "tag" tag] |}.
    split; [apply list_elem_of_singleton; reflexivity |].
    split; [reflexivity |]. unfold new_lines. apply drop_all.
Qed.

End Properties.

(** ** Further properties of the handlers *)

Section Handlers.
Context `{X : Externals}.

Lemma new_calls_app (w w' : World) (l : list sentry.Call) :
  sentry.calls (hub w') = sentry.calls (hub w) ++ l → new_calls w w' = l.
Proof. intros Hc. unfold new_calls. rewrite Hc. apply drop_app_length. Qed.

Lemma submitted_same_top (record : slog.Record_) (h1 h2 : sentry.Hub) :
  sentry.top h1 = sentry.top h2 → submitted record h1 = submitted record h2.
Proof. intros Ht. unfold submitted. by rewrite Ht. Qed.

Lemma after_submission_hub (record : slog.Record_) (w : World) :
  sentry.top (hub (after_submission record w)) = sentry.top (hub w) ∧
  sentry.calls (hub (after_submission record w)) =
    sentry.calls (hub w) ++ [capture_call record (hub w)].
Proof.
  unfold after_submission. rewrite WithScope_capture. split; reflexivity.
Qed.

(** What any handler does to the hub: the top scope stays, and the calls
    grow by submissions of the record under that scope. *)
Lemma Handle_hub (h : Handler) (record : slog.Record_) :
  ∀ w, ∃ new,
    sentry.top (hub (Handle h record w).2) = sentry.top (hub w) ∧
    sentry.calls (hub (Handle h record w).2) = sentry.calls (hub w) ++ new ∧
    Forall (submits record (hub w)) new.
Proof.
  induction h as [j | m | n m IH | j s IHj IHs | x] using Handler_chain_ind; intros w.
  - exists []. cbn [Handle]. unfold JSONHandler_Handle.
    destruct (Write_result _ _); cbn; rewrite app_nil_r; by repeat split.
  - exists [capture_call record (hub w)].
    rewrite sentryHandler_Handle_unchained. cbn [snd].
    destruct (after_submission_hub record w) as [Ht Hc].
    split; [exact Ht |]. split; [exact Hc |].
    apply Forall_singleton. by eexists.
  - cbn [Handle]. unfold sentryHandler_Handle.
    destruct (slog.RLevel record <? m); [apply IH |].
    fold (after_submission record w).
    destruct (after_submission_hub record w) as [Ht Hc].
    destruct (IH (after_submission record w)) as (new & Ht' & Hc' & Hall).
    exists (capture_call record (hub w) :: new).
    split; [congruence |]. split.
    + rewrite Hc', Hc, <- app_assoc. reflexivity.
    + apply Forall_cons. split; [by eexists |].
      eapply Forall_impl; [exact Hall |].
      intros c [id ->]. exists id.
      by rewrite (submitted_same_top record _ _ Ht).
  - cbn [Handle]. unfold combinedHandler_Handle.
    destruct (IHj w) as (new1 & Ht1 & Hc1 & Hall1).
    destruct (Handle j record w) as [[e|] w1]; cbn [snd] in *.
    + exists new1. by repeat split.
    + destruct (IHs w1) as (new2 & Ht2 & Hc2 & Hall2).
      exists (new1 ++ new2).
      split; [congruence |]. split.
      * rewrite Hc2, Hc1, <- app_assoc. reflexivity.
      * apply Forall_app. split; [exact Hall1 |].
        eapply Forall_impl; [exact Hall2 |].
        intros c [id ->]. exists id.
        by rewrite (submitted_same_top record _ _ Ht1).
  - exists []. cbn [Handle].
    destruct (ext_Handle x record (ext w)); cbn; rewrite app_nil_r; by repeat split.
Qed.

(** The same for a handler made of JSON handlers, adapters and fan-outs
    alone, with nothing taken from what a handler written elsewhere may
    do. *)
Lemma Handle_hub_internal (h : Handler) (record : slog.Record_) :
  internal h = true →
  ∀ w, ∃ new,
    sentry.top (hub (Handle h record w).2) = sentry.top (hub w) ∧
    sentry.calls (hub (Handle h record w).2) = sentry.calls (hub w) ++ new ∧
    Forall (submits record (hub w)) new.
Proof.
  induction h as [j | m | n m IH | j s IHj IHs | x] using Handler_chain_ind;
    cbn [internal]; intros Hi w; try discriminate Hi.
  - exists []. cbn [Handle]. unfold JSONHandler_Handle.
    destruct (Write_result _ _); cbn; rewrite app_nil_r; by repeat split.
  - exists [capture_call record (hub w)].
    rewrite sentryHandler_Handle_unchained. cbn [snd].
    destruct (after_submission_hub record w) as [Ht Hc].
    split; [exact Ht |]. split; [exact Hc |].
    apply Forall_singleton. by eexists.
  - cbn [Handle]. unfold sentryHandler_Handle.
    destruct (slog.RLevel record <? m); [by apply IH |].
    fold (after_submission record w).
    destruct (after_submission_hub record w) as [Ht Hc].
    destruct (IH Hi (after_submission record w)) as (new & Ht' & Hc' & Hall).
    exists (capture_call record (hub w) :: new).
    split; [congruence |]. split.
    + rewrite Hc', Hc, <- app_assoc. reflexivity.
    + apply Forall_cons. split; [by eexists |].
      eapply Forall_impl; [exact Hall |].
      intros c [id ->]. exists id.
      by rewrite (submitted_same_top record _ _ Ht).
  - apply andb_true_iff in Hi as [Hj Hs].
    cbn [Handle]. unfold combinedHandler_Handle.
    destruct (IHj Hj w) as (new1 & Ht1 & Hc1 & Hall1).
    destruct (Handle j record w) as [[e|] w1]; cbn [snd] in *.
    + exists new1. by repeat split.
    + destruct (IHs Hs w1) as (new2 & Ht2 & Hc2 & Hall2).
      exists (new1 ++ new2).
      split; [congruence |]. split.
      * rewrite Hc2, Hc1, <- app_assoc. reflexivity.
      * apply Forall_app. split; [exact Hall1 |].
        eapply Forall_impl; [exact Hall2 |].
        intros c [id ->]. exists id.
        by rewrite (submitted_same_top record _ _ Ht1).
Qed.

(** X1. For a handler made of JSON handlers, adapters and fan-outs, in
    any nesting and with any chains, [Handle] leaves the hub's top scope
    as it found it, so the scope opened for a submission never outlives
    it, and it only appends to the calls made before. *)
Theorem Handle_keeps_scope (h : Handler) (record : slog.Record_) (w : World)
    (Hinternal : internal h = true) :
  sentry.top (hub (Handle h record w).2) = sentry.top (hub w) ∧
  sentry.calls (hub (Handle h record w).2) =
    sentry.calls (hub w) ++ new_calls w (Handle h record w).2.
Proof.
  destruct (Handle_hub_internal h record Hinternal w) as (new & Ht & Hc & _).
  split; [exact Ht |]. by rewrite (new_calls_app _ _ _ Hc).
Qed.

(** X2. Every call to the SDK that [Handle] makes, for a handler made of
    JSON handlers, adapters and fan-outs, is a [CaptureMessage] of the
    record's message at the level the table gives for the record's level,
    with the record's attributes laid over the extras of the enclosing
    scope; such a handler never initialises or flushes the SDK. *)
Theorem Handle_calls_are_submissions (h : Handler) (record : slog.Record_) (w : World)
    (Hinternal : internal h = true) :
  Forall (λ c, ∃ id,
            c = sentry.CaptureMessage_call
                  {| sentry.EMessage := slog.RMessage record;
                     sentry.ELevel := Some (slogToSentryLevel (slog.RLevel record));
                     sentry.EExtra :=
                       collect_attrs record ∪ sentry.extra (sentry.top (hub w)) |} id)
         (new_calls w (Handle h record w).2).
Proof.
  destruct (Handle_hub_internal h record Hinternal w) as (new & _ & Hc & Hall).
  rewrite (new_calls_app _ _ _ Hc). exact Hall.
Qed.

Lemma same_outside_hub_refl (a : option error * World) : same_outside_hub a a.
Proof. by repeat split. Qed.

(** X3. Putting a handler behind the adapter changes nothing outside the
    SDK, when what the chained handler returns, writes and does to the
    handlers written elsewhere does not depend on the hub it runs on (as
    for a JSON handler): at every level the adapter returns the error the
    chained handler returns on its own, and leaves standard output and
    the handlers written elsewhere as the chained handler leaves them. *)
Theorem sentryHandler_Handle_transparent
    (n : Handler) (minLogLevel : slog.Level) (record : slog.Record_) (w : World)
    (Hblind : ∀ w1 w2 : World,
        stdout w1 = stdout w2 → ext w1 = ext w2 →
        same_outside_hub (Handle n record w1) (Handle n record w2)) :
  same_outside_hub (Handle (sentryHandler (Some n) minLogLevel) record w)
                   (Handle n record w).
Proof.
  cbn [Handle]. unfold sentryHandler_Handle.
  destruct (slog.RLevel record <? minLogLevel); [apply same_outside_hub_refl |].
  by apply Hblind.
Qed.

(** X4. A fan-out whose remote branch is an adapter without a chain, as
    [New] builds it, returns exactly what its JSON branch returns and
    leaves standard output and the handlers written elsewhere as the JSON
    branch leaves them: the remote branch never turns a delivered record
    into an error. *)
Theorem combinedHandler_Handle_json_result
    (jsonHandler : Handler) (minLogLevel : slog.Level) (record : slog.Record_) (w : World) :
  same_outside_hub
    (Handle (combinedHandler jsonHandler (sentryHandler None minLogLevel)) record w)
    (Handle jsonHandler record w).
Proof.
  cbn [Handle]. unfold combinedHandler_Handle.
  fold (Handle (sentryHandler None minLogLevel)).
  destruct (Handle jsonHandler record w) as [[e|] w1]; [apply same_outside_hub_refl |].
  change (sentryHandler_Handle Handle None minLogLevel record w1)
    with (Handle (sentryHandler None minLogLevel) record w1).
  rewrite sentryHandler_Handle_unchained. by repeat split.
Qed.

(** X5. When the chained handler makes no call to the SDK for the record
    (a JSON handler, say), the adapter submits the record exactly when
    its level is at or above the threshold, and then once. *)
Theorem sentryHandler_Handle_chained_threshold
    (n : Handler) (minLogLevel : slog.Level) (record : slog.Record_) (w : World)
    (Hquiet : ∀ w1, hub (Handle n record w1).2 = hub w1) :
  new_calls w (Handle (sentryHandler (Some n) minLogLevel) record w).2 =
  if minLogLevel <=? slog.RLevel record then [capture_call record (hub w)] else [].
Proof.
  destruct (Z.leb_spec minLogLevel (slog.RLevel record)) as [Hle | Hlt].
  - rewrite (sentryHandler_Handle_from_threshold _ _ _ _ Hle).
    apply new_calls_app. rewrite Hquiet.
    apply (proj2 (after_submission_hub record w)).
  - rewrite (sentryHandler_Handle_below_chained _ _ _ _ Hlt).
    apply new_calls_app. rewrite Hquiet. by rewrite app_nil_r.
Qed.

End Handlers.

(** ** Further properties of the submitted event *)

Section Events.
Context `{X : Externals}.

Lemma foldl_insert_absent (attrs : list slog.Attr) (k : string) :
  ∀ m : gmap string slog.Value,
    k ∉ attrs.*1 →
    foldl (λ m a, <[slog.Key a := slog.Val a]> m) m attrs !! k = m !! k.
Proof.
  induction attrs as [| [k' v'] attrs IH]; intros m Hk; [reflexivity |].
  cbn in Hk. apply not_elem_of_cons in Hk as [Hne Hk].
  cbn [foldl]. rewrite (IH _ Hk). unfold slog.Key. cbn.
  by apply lookup_insert_ne.
Qed.

Lemma collect_attrs_last (record : slog.Record_) (pre post : list slog.Attr)
    (k : string) (v : slog.Value) :
  slog.RAttrs record = pre ++ (k, v) :: post → k ∉ post.*1 →
  collect_attrs record !! k = Some v.
Proof.
  intros Ha Hk. unfold collect_attrs. rewrite Ha, foldl_app. cbn [foldl].
  rewrite (foldl_insert_absent _ _ _ Hk). unfold slog.Key, slog.Val. cbn.
  apply lookup_insert_eq.
Qed.

Lemma collect_attrs_absent (record : slog.Record_) (k : string) :
  k ∉ (slog.RAttrs record).*1 → collect_attrs record !! k = None.
Proof.
  intros Hk. unfold collect_attrs. by rewrite (foldl_insert_absent _ _ _ Hk).
Qed.

Lemma sentryHandler_Handle_first_call
    (next : option Handler) (minLogLevel : slog.Level) (record : slog.Record_) (w : World) :
  minLogLevel ≤ slog.RLevel record →
  ∃ rest, new_calls w (Handle (sentryHandler next minLogLevel) record w).2 =
          capture_call record (hub w) :: rest.
Proof.
  intros Hle. rewrite (sentryHandler_Handle_from_threshold _ _ _ _ Hle).
  destruct (after_submission_hub record w) as [_ Hc].
  destruct next as [n|]; cbn [snd].
  - destruct (Handle_hub n record (after_submission record w)) as (new & _ & Hc' & _).
    exists new. apply new_calls_app. rewrite Hc', Hc, <- app_assoc. reflexivity.
  - exists []. by apply new_calls_app.
Qed.

(** X6. When a record at or above the threshold has several attributes
    with one key, the event the adapter submits carries the value of the
    last of them under that key, also over an extra of the enclosing
    scope with that key. *)
Theorem sentryHandler_Handle_last_attr_wins
    (next : option Handler) (minLogLevel : slog.Level) (record : slog.Record_) (w : World)
    (pre post : list slog.Attr) (k : string) (v : slog.Value)
    (Hlevel : minLogLevel ≤ slog.RLevel record)
    (Hattrs : slog.RAttrs record = pre ++ (k, v) :: post)
    (Hlast : k ∉ post.*1) :
  ∃ ev id rest,
    new_calls w (Handle (sentryHandler next minLogLevel) record w).2 =
      sentry.CaptureMessage_call ev id :: rest ∧
    sentry.EExtra ev !! k = Some v.
Proof.
  destruct (sentryHandler_Handle_first_call next _ _ w Hlevel) as [rest Hc].
  eexists _, _, rest. split; [exact Hc |].
  cbn. apply lookup_union_Some_l. by eapply collect_attrs_last.
Qed.

(** X7. Under a key that no attribute of the record has, the submitted
    event carries what the enclosing scope has under that key, and
    nothing if the scope has nothing. *)
Theorem sentryHandler_Handle_absent_key
    (next : option Handler) (minLogLevel : slog.Level) (record : slog.Record_) (w : World)
    (k : string)
    (Hlevel : minLogLevel ≤ slog.RLevel record)
    (Habsent : k ∉ (slog.RAttrs record).*1) :
  ∃ ev id rest,
    new_calls w (Handle (sentryHandler next minLogLevel) record w).2 =
      sentry.CaptureMessage_call ev id :: rest ∧
    sentry.EExtra ev !! k = sentry.extra (sentry.top (hub w)) !! k.
Proof.
  destruct (sentryHandler_Handle_first_call next _ _ w Hlevel) as [rest Hc].
  eexists _, _, rest. split; [exact Hc |].
  cbn. apply lookup_union_r. by apply collect_attrs_absent.
Qed.

End Events.

(** ** Further properties of the factory and its loggers *)

Section Factory.
Context `{X : Externals}.

(** X8. [New] writes nothing to standard output and leaves the hub's top
    scope alone.  Without the remote sink it calls nothing; with it, it
    calls [sentry.Init] once, with the configured DSN, tracing enabled and
    a sample rate of 0.05, and then either fails with the SDK's message
    after "sentry.Init failed: " without flushing, or flushes once with a
    timeout of two seconds. *)
Theorem New_calls_and_frame (c : Config) (w : World) :
  stdout (New c w).2 = stdout w ∧
  ext (New c w).2 = ext w ∧
  sentry.top (hub (New c w).2) = sentry.top (hub w) ∧
  let o := {| sentry.Dsn := SentryDSN c;
              sentry.EnableTracing := true;
              sentry.TracesSampleRate := (5 # 100)%Q |} in
  ((¬ remote_requested c ∧ new_calls w (New c w).2 = []) ∨
   (remote_requested c ∧ ∃ e,
      (New c w).1 = Err ("sentry.Init failed: " +:+ e) ∧
      new_calls w (New c w).2 = [sentry.Init_call o (Some e)]) ∨
   (remote_requested c ∧ ∃ ok,
      (New c w).1 = Ok (slog_New (New_fanout c)) ∧
      new_calls w (New c w).2 =
        [sentry.Init_call o None; sentry.Flush_call 2000000000 ok])).
Proof.
  destruct (New_paths c w) as [Hno | e Hyes Hi | Hyes Hi]; cbn [fst snd].
  - repeat split. left. split; [exact Hno | apply new_calls_refl].
  - repeat split. right. left. split; [exact Hyes |]. exists e.
    split; [reflexivity |]. rewrite new_calls_Init, Hi. reflexivity.
  - repeat split. right. right. split; [exact Hyes |].
    destruct (new_calls_Init_Flush (New_options c) (2 * time_Second) w) as [ok Hc].
    exists ok. split; [reflexivity |]. rewrite Hc, Hi. reflexivity.
Qed.

(** X9. The handler of a logger returned by [New] is enabled for a level
    exactly when the level is at or above the configured threshold, or
    the remote sink was asked for and the level is at or above warn. *)
Theorem New_enabled_levels (c : Config) (w w' : World) (l : Logger) (level : slog.Level)
    (Hnew : New c w = (Ok l, w')) :
  Enabled (handler l) level = true ↔
  New_level (LogLevel c) ≤ level ∨ (remote_requested c ∧ slog.LevelWarn ≤ level).
Proof.
  destruct (New_paths c w) as [Hno | e Hyes Hi | Hyes Hi]; try discriminate Hnew.
  - injection Hnew as <- _. cbn. unfold slog.JSONHandler_Enabled. cbn.
    rewrite Z.leb_le. split; [by left |]. intros [Hl | [Hr _]]; [exact Hl | contradiction].
  - injection Hnew as <- _. cbn. unfold combinedHandler_Enabled. cbn.
    unfold slog.JSONHandler_Enabled, sentryHandler_Enabled. cbn.
    rewrite orb_true_iff, Z.leb_le, Z.geb_le.
    split; intros [Hl | Hr]; [by left | by right | by left | right; apply Hr].
Qed.

Lemma internal_WithAttrs (h : Handler) (attrs : list slog.Attr) :
  internal h = true →
  internal (WithAttrs h attrs) = true ∧
  ∀ level, Enabled (WithAttrs h attrs) level = Enabled h level.
Proof.
  induction h as [j | m | n m IH | j s IHj IHs | x] using Handler_chain_ind;
    cbn [internal]; intros Hi; try discriminate Hi; try (by split).
  - split; [reflexivity |]. intros level. cbn.
    unfold slog.JSONHandler_WithAttrs. by destruct attrs.
  - apply andb_true_iff in Hi as [Hj Hs].
    destruct (IHj Hj) as [Hij Hej], (IHs Hs) as [His Hes].
    cbn. unfold combinedHandler_WithAttrs. cbn. split.
    + by rewrite Hij, His.
    + intros level. unfold combinedHandler_Enabled. by rewrite Hej, Hes.
Qed.

Lemma internal_WithGroup (h : Handler) (name : string) :
  internal h = true →
  internal (WithGroup h name) = true ∧
  ∀ level, Enabled (WithGroup h name) level = Enabled h level.
Proof.
  induction h as [j | m | n m IH | j s IHj IHs | x] using Handler_chain_ind;
    cbn [internal]; intros Hi; try discriminate Hi; try (by split).
  - split; [reflexivity |]. intros level. cbn.
    unfold slog.JSONHandler_WithGroup. by case_decide.
  - apply andb_true_iff in Hi as [Hj Hs].
    destruct (IHj Hj) as [Hij Hej], (IHs Hs) as [His Hes].
    cbn. unfold combinedHandler_WithGroup. cbn. split.
    + by rewrite Hij, His.
    + intros level. unfold combinedHandler_Enabled. by rewrite Hej, Hes.
Qed.

(** X10. Deriving a logger with attributes or groups, any number of
    times, never changes the levels its handler is enabled for, when the
    handler is made of JSON handlers, adapters and fan-outs. *)
Theorem derive_keeps_levels (l : Logger) (ds : list slog.scope) (level : slog.Level)
    (Hinternal : internal (handler l) = true) :
  Enabled (handler (derive l ds)) level = Enabled (handler l) level.
Proof.
  revert l Hinternal. induction ds as [| d ds IH]; intros l Hi; [reflexivity |].
  cbn [derive foldl]. fold (derive (match d with
                                    | slog.attrs_scope attrs => Logger_With l attrs
                                    | slog.group_scope name => Logger_WithGroup l name
                                    end) ds).
  destruct d as [attrs | name].
  - unfold Logger_With. destruct attrs as [| a attrs]; [by apply IH |].
    destruct (internal_WithAttrs (handler l) (a :: attrs) Hi) as [Hi' He].
    rewrite IH; [apply He | exact Hi'].
  - unfold Logger_WithGroup. case_decide; [by apply IH |].
    destruct (internal_WithGroup (handler l) name Hi) as [Hi' He].
    rewrite IH; [apply He | exact Hi'].
Qed.

Lemma shaped_derive (l : Logger) (ds : list slog.scope) :
  (json_shaped (handler l) → json_shaped (handler (derive l ds))) ∧
  (fanout_shaped (handler l) → fanout_shaped (handler (derive l ds))).
Proof.
  revert l. induction ds as [| d ds IH]; intros l; [by split |].
  cbn [derive foldl].
  set (l1 := match d with
             | slog.attrs_scope attrs => Logger_With l attrs
             | slog.group_scope name => Logger_WithGroup l name
             end).
  assert (H1 : (json_shaped (handler l) → json_shaped (handler l1)) ∧
               (fanout_shaped (handler l) → fanout_shaped (handler l1))).
  { subst l1. destruct d as [attrs | name].
    - unfold Logger_With. destruct attrs as [| a attrs]; [by split |]. split.
      + intros [j ->]. cbn. by eexists.
      + intros (j & m & ->). cbn. unfold combinedHandler_WithAttrs. cbn.
        by eexists _, _.
    - unfold Logger_WithGroup. case_decide; [by split |]. split.
      + intros [j ->]. cbn. by eexists.
      + intros (j & m & ->). cbn. unfold combinedHandler_WithGroup. cbn.
        by eexists _, _. }
  destruct (IH l1) as [IHj IHf]. destruct H1 as [Hj Hf].
  split; intros Hs; [apply IHj, Hj, Hs | apply IHf, Hf, Hs].
Qed.

Lemma fanout_shaped_new_calls (h : Handler) (record : slog.Record_) (w : World) :
  fanout_shaped h →
  new_calls w (Handle h record w).2 =
  match (Handle h record w).1 with
  | None => [capture_call record (hub w)]
  | Some _ => []
  end.
Proof.
  intros (j & m & ->). cbn [Handle]. unfold combinedHandler_Handle.
  change (Handle (JSONHandler j) record w) with (JSONHandler_Handle j record w).
  unfold JSONHandler_Handle.
  destruct (Write_result _ _) as [e|]; cbn [fst snd]; [apply new_calls_refl |].
  change (sentryHandler_Handle Handle None m record ?w1)
    with (Handle (sentryHandler None m) record w1).
  rewrite sentryHandler_Handle_unchained. cbn [fst snd].
  apply new_calls_app.
  exact (proj2 (after_submission_hub record
                  {| hub := hub w;
                     stdout := stdout w ++ [slog.JSONHandler_line j record];
                     ext := ext w |})).
Qed.

(** X11. The tag of [NewTag] does not reach Sentry.  With the remote sink
    asked for, a record logged through the tagged logger or a logger
    derived from it is submitted exactly when the handler is enabled for
    its level and returns no error, and the event has nothing under the
    key "tag" unless the record itself or the enclosing scope has. *)
Theorem NewTag_remote_events_lack_tag
    (c : Config) (tag : string) (w w' : World) (l : Logger)
    (ds : list slog.scope) (time pc : Z) (level : slog.Level) (msg : string)
    (attrs : list slog.Attr) (w1 : World)
    (Hremote : remote_requested c)
    (Hnew : NewTag c tag w = (Ok l, w'))
    (Hkey : "tag" ∉ attrs.*1)
    (Htop : sentry.extra (sentry.top (hub w1)) !! "tag" = None) :
  let record := logged time pc level msg attrs in
  let l' := derive l ds in
  new_calls w1 (Logger_Log l' time pc level msg attrs w1) =
    (if Enabled (handler l') level then
       match (Handle (handler l') record w1).1 with
       | None => [sentry.CaptureMessage_call (submitted record (hub w1))
                    (Capture_result (submitted record (hub w1)) (sentry.calls (hub w1)))]
       | Some _ => []
       end
     else []) ∧
  sentry.EExtra (submitted record (hub w1)) !! "tag" = None.
Proof.
  cbn zeta. split.
  - assert (Hs : fanout_shaped (handler (derive l ds))).
    { apply shaped_derive. unfold NewTag in Hnew.
      destruct (New_paths c w) as [Hno | e Hyes Hi | Hyes Hi];
        [contradiction | discriminate Hnew |].
      injection Hnew as <- _. cbn. unfold combinedHandler_WithAttrs. cbn.
      by eexists _, _. }
    unfold Logger_Log. fold (logged time pc level msg attrs).
    destruct (Enabled _ level); [| apply new_calls_refl].
    by apply fanout_shaped_new_calls.
  - unfold submitted. cbn [sentry.EExtra].
    apply lookup_union_None_2; [| exact Htop].
    apply collect_attrs_absent. exact Hkey.
Qed.

(** X12. Without the remote sink, nothing logged through the logger of
    [New], or through any logger derived from it, calls the SDK or
    touches the hub. *)
Theorem New_local_logger_silent
    (c : Config) (w w' : World) (l : Logger)
    (ds : list slog.scope) (time pc : Z) (level : slog.Level) (msg : string)
    (attrs : list slog.Attr) (w1 : World)
    (Hlocal : ¬ remote_requested c)
    (Hnew : New c w = (Ok l, w')) :
  hub (Logger_Log (derive l ds) time pc level msg attrs w1) = hub w1.
Proof.
  assert (Hs : json_shaped (handler (derive l ds))).
  { apply shaped_derive.
    destruct (New_paths c w) as [Hno | e Hyes Hi | Hyes Hi];
      [| contradiction | contradiction].
    injection Hnew as <- _. by eexists. }
  destruct Hs as [j Hj]. unfold Logger_Log. rewrite Hj. cbn.
  destruct (slog.JSONHandler_Enabled j level); [| reflexivity].
  unfold JSONHandler_Handle. destruct (Write_result _ _); reflexivity.
Qed.

(** X13. [New] has no guard against a second initialisation: two calls
    that both ask for the remote sink and succeed initialise the SDK
    twice, each with its own DSN, and flush twice. *)
Theorem New_reinitializes (c1 c2 : Config) (w : World) (l1 l2 : Logger)
    (Hr1 : remote_requested c1) (Hr2 : remote_requested c2)
    (Hok1 : (New c1 w).1 = Ok l1)
    (Hok2 : (New c2 (New c1 w).2).1 = Ok l2) :
  ∃ ok1 ok2,
    new_calls w (New c2 (New c1 w).2).2 =
    [sentry.Init_call (New_options c1) None; sentry.Flush_call 2000000000 ok1;
     sentry.Init_call (New_options c2) None; sentry.Flush_call 2000000000 ok2].
Proof.
  destruct (New_paths c1 w) as [Hno | e Hyes Hi | Hyes Hi];
    [contradiction | discriminate Hok1 |]. cbn [snd] in *.
  set (w1 := (sentry_Flush (2 * time_Second) (sentry_Init (New_options c1) w).2).2) in *.
  destruct (New_paths c2 w1) as [Hno' | e' Hyes' Hi' | Hyes' Hi'];
    [contradiction | discriminate Hok2 |]. cbn [snd].
  eexists _, _. apply new_calls_app. subst w1. cbn.
  rewrite <- !app_assoc. cbn. rewrite Hi.
  cbn in Hi'. rewrite Hi in Hi'. rewrite <- !app_assoc in Hi'. cbn in Hi'.
  rewrite Hi'. reflexivity.
Qed.

End Factory.

(** ** The properties at concrete inputs *)

(** The table at level 5, one above warn and none of the four. *)
Lemma slogToSentryLevel_table_witness :
  (5 ∉ [slog.LevelDebug; slog.LevelInfo; slog.LevelWarn; slog.LevelError]) ∧
  slogToSentryLevel 5 = sentry.LevelInfo.
Proof.
  assert (H : 5 ∉ [slog.LevelDebug; slog.LevelInfo; slog.LevelWarn; slog.LevelError]).
  { unfold slog.LevelDebug, slog.LevelInfo, slog.LevelWarn, slog.LevelError.
    intros Hin. repeat (apply elem_of_cons in Hin as [Hin | Hin]; [lia |]).
    by apply elem_of_nil in Hin. }
  split; [exact H |].
  exact (proj2 (proj2 (proj2 (proj2 (slogToSentryLevel_table 5 H))))).
Defined.

(** C1. An info record given to the adapter [New] builds (threshold warn,
    no chained handler) is below the threshold and is submitted all the
    same: [Handle] makes one [CaptureMessage] call for it.  So is an info
    record logged through the logger [New] returns for a configuration at
    level "debug" with Sentry enabled. *)
Theorem sentryHandler_Handle_below_threshold_submits :
  let h := @sentryHandler doubles None slog.LevelWarn in
  let record := plain_record slog.LevelInfo "started" in
  let event := {| sentry.EMessage := "started";
                  sentry.ELevel := Some sentry.LevelInfo;
                  sentry.EExtra := ∅ |} in
  slog.RLevel record < slog.LevelWarn ∧
  (Handle h record fresh_world).1 = None ∧
  new_calls fresh_world (Handle h record fresh_world).2 =
    [sentry.CaptureMessage_call event (Some "event-id")] ∧
  ∃ l w1,
    New debug_remote fresh_world = (Ok l, w1) ∧
    new_calls w1 (Logger_Log l 0 0 slog.LevelInfo "started" [] w1) =
      [sentry.CaptureMessage_call event (Some "event-id")].
Proof.
  cbn zeta. split; [reflexivity |]. split; [reflexivity |]. split; [reflexivity |].
  eexists _, _. split; reflexivity.
Qed.

(** With an instrumented JSON branch that fails, the journal of the
    doubles holds one record: the remote branch was not given it. *)
Example combinedHandler_Handle_failing_json :
  Handle (combinedHandler failing_double (@External doubles None))
    (plain_record slog.LevelError "failed") fresh_world =
  (Some "disk full",
   @Build_World doubles (hub fresh_world) [] [plain_record slog.LevelError "failed"]).
Proof. reflexivity. Qed.


(** At level "error" with Sentry enabled, the returned handler is enabled
    for warn. *)
Lemma New_remote_enabled_from_warn_witness :
  EnableSentry error_remote = true ∧
  SentryDSN error_remote ≠ "" ∧
  (New (X := doubles) error_remote fresh_world).1 = Ok (slog_New (New_fanout error_remote)) ∧
  Enabled (X := doubles) (New_fanout error_remote) slog.LevelWarn = true ∧
  Enabled (X := doubles) (New_fanout error_remote) slog.LevelError = true.
Proof.
  assert (Hdsn : SentryDSN error_remote ≠ "") by (cbn; discriminate).
  split; [reflexivity |]. split; [exact Hdsn |]. split; [reflexivity |].
  pose proof (New_remote_enabled_from_warn (X := doubles) error_remote fresh_world
                (New error_remote fresh_world).2 (slog_New (New_fanout error_remote))
                eq_refl Hdsn eq_refl) as (Hw & He & _).
  split; [exact Hw | exact He].
Defined.

(** An error record through an adapter chained to a failing double: the
    double's error comes back. *)
Lemma sentryHandler_Handle_only_chain_error_witness :
  slog.LevelWarn ≤ slog.RLevel (plain_record slog.LevelError "failed") ∧
  (Handle (sentryHandler (Some failing_double) slog.LevelWarn)
     (plain_record slog.LevelError "failed") fresh_world).1 = Some "disk full".
Proof.
  assert (H : slog.LevelWarn ≤ slog.RLevel (plain_record slog.LevelError "failed")).
  { cbn. unfold slog.LevelWarn, slog.LevelError. lia. }
  split; [exact H |].
  exact (proj2 (sentryHandler_Handle_only_chain_error
                  (Some failing_double) slog.LevelWarn
                  (plain_record slog.LevelError "failed") fresh_world H)).
Defined.

(** Deriving the only adapter of a store with an attribute and with none
    gives the same address and the same store. *)
Lemma sentryHandler_derivations_witness :
  [@sentryHandler doubles None slog.LevelWarn] !! 0%nat =
    Some (sentryHandler None slog.LevelWarn) ∧
  sentryHandler_WithAttrs_at 0%nat [slog.String "k" "v"]
    [@sentryHandler doubles None slog.LevelWarn] =
  sentryHandler_WithAttrs_at 0%nat [] [sentryHandler None slog.LevelWarn].
Proof.
  split; [reflexivity |].
  exact (proj1 (proj2 (proj2
    (sentryHandler_derivations (X := doubles)
       [sentryHandler None slog.LevelWarn] 0%nat None slog.LevelWarn
       [] "g" eq_refl))) [slog.String "k" "v"]).
Defined.

(** An adapter chained to a JSON handler submits an error record once. *)
Lemma sentryHandler_Handle_chained_threshold_witness :
  (∀ w1, hub (Handle info_json (plain_record slog.LevelError "failed") w1).2 = hub w1) ∧
  new_calls fresh_world
    (Handle (sentryHandler (Some info_json) slog.LevelWarn)
       (plain_record slog.LevelError "failed") fresh_world).2 =
  [capture_call (X := doubles) (plain_record slog.LevelError "failed") (hub fresh_world)].
Proof.
  assert (H : ∀ w1, hub (Handle info_json (plain_record slog.LevelError "failed") w1).2
                    = hub w1) by (intros w1; reflexivity).
  split; [exact H |].
  exact (sentryHandler_Handle_chained_threshold info_json slog.LevelWarn
           (plain_record slog.LevelError "failed") fresh_world H).
Defined.

(** Of two attributes with the key "k", the second reaches the event. *)
Lemma sentryHandler_Handle_last_attr_wins_witness :
  slog.LevelWarn ≤ slog.RLevel twice_k ∧
  slog.RAttrs twice_k = [("k", slog.Int64Value 1)] ++ ("k", slog.Int64Value 2) :: [] ∧
  ("k" ∉ ([] : list slog.Attr).*1) ∧
  ∃ ev id rest,
    new_calls fresh_world
      (Handle (X := doubles) (sentryHandler None slog.LevelWarn) twice_k fresh_world).2 =
      sentry.CaptureMessage_call ev id :: rest ∧
    sentry.EExtra ev !! "k" = Some (slog.Int64Value 2).
Proof.
  assert (Hl : slog.LevelWarn ≤ slog.RLevel twice_k).
  { cbn. unfold slog.LevelWarn, slog.LevelError. lia. }
  assert (Hk : "k" ∉ ([] : list slog.Attr).*1) by (cbn; apply not_elem_of_nil).
  split; [exact Hl |]. split; [reflexivity |]. split; [exact Hk |].
  exact (sentryHandler_Handle_last_attr_wins (X := doubles) None slog.LevelWarn twice_k
           fresh_world [("k", slog.Int64Value 1)] [] "k" (slog.Int64Value 2)
           Hl eq_refl Hk).
Defined.

(** A record without the key "tag" on a scope without it: the event has
    nothing under "tag". *)
Lemma sentryHandler_Handle_absent_key_witness :
  slog.LevelWarn ≤ slog.RLevel twice_k ∧
  ("tag" ∉ (slog.RAttrs twice_k).*1) ∧
  ∃ ev id rest,
    new_calls fresh_world
      (Handle (X := doubles) (sentryHandler None slog.LevelWarn) twice_k fresh_world).2 =
      sentry.CaptureMessage_call ev id :: rest ∧
    sentry.EExtra ev !! "tag" = sentry.extra (sentry.top (hub fresh_world)) !! "tag".
Proof.
  assert (Hl : slog.LevelWarn ≤ slog.RLevel twice_k).
  { cbn. unfold slog.LevelWarn, slog.LevelError. lia. }
  assert (Hk : "tag" ∉ (slog.RAttrs twice_k).*1).
  { cbn. intros Hin.
    repeat (apply elem_of_cons in Hin as [Hin | Hin]; [discriminate Hin |]).
    by apply elem_of_nil in Hin. }
  split; [exact Hl |]. split; [exact Hk |].
  exact (sentryHandler_Handle_absent_key (X := doubles) None slog.LevelWarn twice_k
           fresh_world "tag" Hl Hk).
Defined.

(** At level "error" with the remote sink, warn is enabled through the
    second disjunct. *)
Lemma New_enabled_levels_witness :
  New (X := doubles) error_remote fresh_world =
    (Ok (slog_New (New_fanout error_remote)), (New error_remote fresh_world).2) ∧
  (Enabled (X := doubles) (New_fanout error_remote) slog.LevelWarn = true ↔
   New_level (LogLevel error_remote) ≤ slog.LevelWarn ∨
   (remote_requested error_remote ∧ slog.LevelWarn ≤ slog.LevelWarn)).
Proof.
  split; [reflexivity |].
  exact (New_enabled_levels (X := doubles) error_remote fresh_world
           (New error_remote fresh_world).2 (slog_New (New_fanout error_remote))
           slog.LevelWarn eq_refl).
Defined.

(** The fan-out of [New], derived with an attribute and a group. *)
Lemma derive_keeps_levels_witness :
  internal (X := doubles) (New_fanout error_remote) = true ∧
  Enabled (handler (derive (slog_New (X := doubles) (New_fanout error_remote))
                      [slog.attrs_scope [slog.String "k" "v"]; slog.group_scope "g"]))
          slog.LevelInfo =
  Enabled (X := doubles) (New_fanout error_remote) slog.LevelInfo.
Proof.
  split; [reflexivity |].
  exact (derive_keeps_levels (X := doubles) (slog_New (New_fanout error_remote))
           [slog.attrs_scope [slog.String "k" "v"]; slog.group_scope "g"]
           slog.LevelInfo eq_refl).
Defined.

(** An error record logged through the logger tagged "X". *)
Lemma NewTag_remote_events_lack_tag_witness :
  remote_requested error_remote ∧
  NewTag (X := doubles) error_remote "X" fresh_world =
    (Ok tagged_remote, (NewTag error_remote "X" fresh_world).2) ∧
  ("tag" ∉ ([] : list slog.Attr).*1) ∧
  sentry.extra (sentry.top (hub fresh_world)) !! "tag" = None ∧
  sentry.EExtra (submitted (logged 0 0 slog.LevelError "failed" []) (hub fresh_world))
    !! "tag" = None.
Proof.
  assert (Hr : remote_requested error_remote) by (split; [reflexivity | discriminate]).
  assert (Hk : "tag" ∉ ([] : list slog.Attr).*1) by (cbn; apply not_elem_of_nil).
  assert (Ht : sentry.extra (sentry.top (hub fresh_world)) !! "tag" = None)
    by reflexivity.
  split; [exact Hr |]. split; [reflexivity |]. split; [exact Hk |]. split; [exact Ht |].
  exact (proj2 (NewTag_remote_events_lack_tag (X := doubles) error_remote "X" fresh_world
                  (NewTag error_remote "X" fresh_world).2 tagged_remote
                  [] 0 0 slog.LevelError "failed" [] fresh_world Hr eq_refl Hk Ht)).
Defined.

(** An error record logged through a local logger derived with a group. *)
Lemma New_local_logger_silent_witness :
  ¬ remote_requested verbose_local ∧
  New (X := doubles) verbose_local fresh_world =
    (Ok (slog_New (New_json verbose_local)), fresh_world) ∧
  hub (Logger_Log (derive (slog_New (New_json verbose_local)) [slog.group_scope "g"])
         0 0 slog.LevelError "failed" [] fresh_world) = hub fresh_world.
Proof.
  assert (Hno : ¬ remote_requested verbose_local) by (intros [He _]; discriminate He).
  split; [exact Hno |]. split; [reflexivity |].
  exact (New_local_logger_silent (X := doubles) verbose_local fresh_world fresh_world
           (slog_New (New_json verbose_local)) [slog.group_scope "g"]
           0 0 slog.LevelError "failed" [] fresh_world Hno eq_refl).
Defined.

(** Two remote loggers built one after the other. *)
Lemma New_reinitializes_witness :
  remote_requested error_remote ∧ remote_requested debug_remote ∧
  ∃ ok1 ok2,
    new_calls fresh_world
      (New (X := doubles) debug_remote (New error_remote fresh_world).2).2 =
    [sentry.Init_call (New_options error_remote) None; sentry.Flush_call 2000000000 ok1;
     sentry.Init_call (New_options debug_remote) None; sentry.Flush_call 2000000000 ok2].
Proof.
  assert (Hr1 : remote_requested error_remote) by (split; [reflexivity | discriminate]).
  assert (Hr2 : remote_requested debug_remote) by (split; [reflexivity | discriminate]).
  split; [exact Hr1 |]. split; [exact Hr2 |].
  exact (New_reinitializes (X := doubles) error_remote debug_remote fresh_world
           (slog_New (New_fanout error_remote)) (slog_New (New_fanout debug_remote))
           Hr1 Hr2 eq_refl eq_refl).
Defined.

(** The fan-out of [New] on a record with attributes keeps the top
    scope. *)
Lemma Handle_keeps_scope_witness :
  internal (X := doubles) (New_fanout error_remote) = true ∧
  sentry.top (hub (Handle (New_fanout error_remote) twice_k fresh_world).2) =
  sentry.top (hub fresh_world).
Proof.
  split; [reflexivity |].
  exact (proj1 (Handle_keeps_scope (X := doubles) (New_fanout error_remote) twice_k
                  fresh_world eq_refl)).
Defined.

(** An adapter chained to the fan-out of [New]: two submissions and
    nothing else. *)
Lemma Handle_calls_are_submissions_witness :
  internal (X := doubles)
    (sentryHandler (Some (New_fanout error_remote)) slog.LevelWarn) = true ∧
  Forall (λ c, ∃ id,
            c = sentry.CaptureMessage_call
                  {| sentry.EMessage := slog.RMessage twice_k;
                     sentry.ELevel := Some (slogToSentryLevel (slog.RLevel twice_k));
                     sentry.EExtra :=
                       collect_attrs twice_k
                       ∪ sentry.extra (sentry.top (hub fresh_world)) |} id)
         (new_calls fresh_world
            (Handle (X := doubles)
               (sentryHandler (Some (New_fanout error_remote)) slog.LevelWarn)
               twice_k fresh_world).2).
Proof.
  split; [reflexivity |].
  exact (Handle_calls_are_submissions (X := doubles)
           (sentryHandler (Some (New_fanout error_remote)) slog.LevelWarn)
           twice_k fresh_world eq_refl).
Defined.

(** An adapter chained to a JSON handler, on an error record. *)
Lemma sentryHandler_Handle_transparent_witness :
  (∀ w1 w2 : @World doubles,
     stdout w1 = stdout w2 → ext w1 = ext w2 →
     same_outside_hub (Handle info_json twice_k w1) (Handle info_json twice_k w2)) ∧
  same_outside_hub
    (Handle (sentryHandler (Some info_json) slog.LevelWarn) twice_k fresh_world)
    (Handle info_json twice_k fresh_world).
Proof.
  assert (H : ∀ w1 w2 : @World doubles,
             stdout w1 = stdout w2 → ext w1 = ext w2 →
             same_outside_hub (Handle info_json twice_k w1)
                              (Handle info_json twice_k w2)).
  { intros w1 w2 Ho He. unfold same_outside_hub. cbn.
    split; [reflexivity |]. split; [by rewrite Ho | exact He]. }
  split; [exact H |].
  exact (sentryHandler_Handle_transparent info_json slog.LevelWarn twice_k fresh_world H).
Defined.
